(** * MSC_PROJECTS table printing helpers (include/MSc_projects_table.hpp)

    A shallow embedding of the header's six function templates.  Every one of
    them writes to [std::cout]; the stream is modelled as an explicit state
    that is threaded through the calls.  The state holds the characters
    written so far together with the three formatting fields that decide how
    [operator<<] pads a value: the field width (set by [setw], reset by each
    formatted insertion), the fill character and the adjust-field flag.  *)

From Stdlib Require Import Ascii String List Arith Lia ZArith.
From Stdlib Require Import DecimalString.
Import ListNotations.

Local Open Scope string_scope.

(** ** The output stream *)

(** [ios_base::adjustfield]: no bit set (the state of a freshly constructed
    stream), [left], [right] or [internal]. *)
Inductive adjust : Type := AdjNone | AdjLeft | AdjRight | AdjInternal.

Record ostream : Type := mkStream {
  out : string;          (* every character written so far, oldest first *)
  width : nat;           (* ios_base::width() *)
  fill : ascii;          (* basic_ios::fill() *)
  adjustfield : adjust   (* flags() & adjustfield *)
}.

(** [std::cout] when the program starts: nothing written, width 0, fill
    character space, no adjust-field bit set. *)
Definition cout : ostream :=
  {| out := ""; width := 0; fill := " "%char; adjustfield := AdjNone |}.

(** The character [os.widen('\n')]. *)
Definition newline : string := String "010"%char "".

(** [k] copies of the fill character [c]. *)
Fixpoint fill_n (k : nat) (c : ascii) : string :=
  match k with
  | O => ""
  | S k' => String c (fill_n k' c)
  end.

(** Padding done by a formatted insertion of the character sequence [txt]
    when the stream is in state [s].  [pre] is the number of leading
    characters (a sign, a [0x] prefix) that stay in front of the padding under
    [internal]; it is 0 for character and string inserters, which therefore
    pad on the left under [internal] as well. *)
Definition padded (s : ostream) (pre : nat) (txt : string) : string :=
  let k := width s - String.length txt in
  match adjustfield s with
  | AdjLeft => txt ++ fill_n k (fill s)
  | AdjInternal =>
      substring 0 pre txt ++ fill_n k (fill s)
        ++ substring pre (String.length txt - pre) txt
  | AdjNone | AdjRight => fill_n k (fill s) ++ txt
  end.

(** A formatted output function: writes the padded text, then [width(0)]. *)
Definition insert (pre : nat) (txt : string) (s : ostream) : ostream :=
  {| out := out s ++ padded s pre txt;
     width := 0;
     fill := fill s;
     adjustfield := adjustfield s |}.

(** The manipulator [setw(n)]. *)
Definition setw (n : nat) (s : ostream) : ostream :=
  {| out := out s; width := n; fill := fill s; adjustfield := adjustfield s |}.

(** The manipulator [endl]: an unformatted [put] of the newline character
    (no padding, the width is left as it is) followed by [flush], which does
    not change the character sequence. *)
Definition endl (s : ostream) : ostream :=
  {| out := out s ++ newline;
     width := width s;
     fill := fill s;
     adjustfield := adjustfield s |}.

(** ** Printable values

    The template parameter [T] of the header ranges over the types that have
    an [operator<<] into a [std::ostream].  [repr v] is the character
    sequence that the inserter produces for [v] at width 0 under the stream's
    remaining flags (base, precision, ...), which the header never touches;
    [sign_len v] is the length of the part of it that precedes the padding
    under [internal].  The inserter is a formatted output function in the
    sense of the standard: it pads to the width and resets the width. *)
Class Printable (T : Type) : Type := {
  repr : T -> string;
  sign_len : T -> nat
}.

(** [std::string] and [const char*]. *)
#[export] Instance Printable_string : Printable string :=
  {| repr := fun v => v; sign_len := fun _ => 0 |}.

(** [char]. *)
#[export] Instance Printable_char : Printable ascii :=
  {| repr := fun c => String c ""; sign_len := fun _ => 0 |}.

(** [int], [long] and the other signed integer types, printed in decimal. *)
#[export] Instance Printable_int : Printable Z :=
  {| repr := fun z => NilEmpty.string_of_int (Z.to_int z);
     sign_len := fun z => if (z <? 0)%Z then 1 else 0 |}.

(** [os << v]. *)
Definition put {T : Type} `{Printable T} (v : T) (s : ostream) : ostream :=
  insert (sign_len v) (repr v) s.

(** [os << "..."] for a string literal. *)
Definition put_lit (txt : string) (s : ostream) : ostream :=
  put (T := string) txt s.

(** ** namespace MSC_PROJECTS *)

(** [static const int columnWidth=14;] (the same in both overloads). *)
Definition columnWidth : nat := 14.

(** [template<class T=std::string> void addColumnEntry(const T& t)]:
    [cout << "|" << setw(columnWidth) << t;] *)
Definition addColumnEntry {T : Type} `{Printable T} (t : T) (s : ostream)
  : ostream :=
  put t (setw columnWidth (put_lit "|" s)).

(** The default argument [std::string("--------------")]. *)
Definition placeholder : string := "--------------".

(** [addColumnEntry()]: default template argument [std::string], default
    function argument [placeholder]. *)
Definition addColumnEntry_default (s : ostream) : ostream :=
  addColumnEntry (T := string) placeholder s.

(** [template<class T> void addColumnEntry(const std::vector<T>& t)]:
    [for(auto ti : t) cout << "|" << setw(columnWidth) << ti;] *)
Fixpoint addColumnEntry_vector {T : Type} `{Printable T} (t : list T)
  (s : ostream) : ostream :=
  match t with
  | [] => s
  | ti :: t' =>
      addColumnEntry_vector t' (put ti (setw columnWidth (put_lit "|" s)))
  end.

(** [void endRow()]: [cout << "|" << endl;] *)
Definition endRow (s : ostream) : ostream := endl (put_lit "|" s).

(** The loop of [emptyTableRow]; [k] is the number of iterations left,
    [n - i].  The counter [i] cannot wrap: it is below [n] before each
    increment. *)
Fixpoint emptyTableRow_loop (k : nat) (s : ostream) : ostream :=
  match k with
  | O => s
  | S k' => emptyTableRow_loop k' (addColumnEntry_default s)
  end.

(** [void emptyTableRow(unsigned int n)]: the loop, then
    [cout << "|" << endl;] written out (not a call of [endRow]). *)
Definition emptyTableRow (n : nat) (s : ostream) : ostream :=
  endl (put_lit "|" (emptyTableRow_loop n s)).

(** One argument of [tableRow]: a value of a printable type, or a
    [std::vector] of such values. *)
Inductive arg : Type :=
| Scalar {T : Type} `{Printable T} (v : T)
| Vector {T : Type} `{Printable T} (t : list T).

(** Overload resolution of the call [addColumnEntry(v)] inside [tableRow]:
    the [std::vector] overload is the more specialised one and is chosen for
    a vector argument, the generic one for everything else. *)
Definition addColumnEntry_arg (a : arg) (s : ostream) : ostream :=
  match a with
  | Scalar v => addColumnEntry v s
  | Vector t => addColumnEntry_vector t s
  end.

(** [tableRow]: the two overloads.  With an empty parameter pack the
    one-argument template is chosen ([addColumnEntry(v); endRow();]);
    otherwise the variadic one ([addColumnEntry(first); tableRow(args...);]). *)
Fixpoint tableRow (first : arg) (args : list arg) (s : ostream) : ostream :=
  match args with
  | [] => endRow (addColumnEntry_arg first s)
  | a :: args' => tableRow a args' (addColumnEntry_arg first s)
  end.

(** ** Sequences of calls

    What a program can do to the stream through this header: any sequence of
    calls of its functions, with any arguments. *)
Inductive call : Type :=
| AddColumnEntry (a : arg)                    (* addColumnEntry(v) *)
| AddColumnEntryDefault                       (* addColumnEntry() *)
| EndRow                                      (* endRow() *)
| EmptyTableRow (n : nat)                     (* emptyTableRow(n) *)
| TableRow (first : arg) (args : list arg).   (* tableRow(first, args...) *)

Definition exec (c : call) (s : ostream) : ostream :=
  match c with
  | AddColumnEntry a => addColumnEntry_arg a s
  | AddColumnEntryDefault => addColumnEntry_default s
  | EndRow => endRow s
  | EmptyTableRow n => emptyTableRow n s
  | TableRow first args => tableRow first args s
  end.

(** The state of the stream after the calls [h], made in order from [s]. *)
Definition run (h : list call) (s : ostream) : ostream :=
  fold_left (fun s' c => exec c s') h s.

(** ** Vocabulary of the statements *)

(** The formatting state of [cout]: width 0, fill space, no adjust bit. *)
Definition std_format (s : ostream) : Prop :=
  width s = 0 /\ fill s = " "%char /\ adjustfield s = AdjNone.

(** One cell: the separator, then the value right-aligned with spaces in a
    field of [columnWidth] characters (wider when the value is). *)
Definition cell_text {T : Type} `{Printable T} (v : T) : string :=
  "|" ++ fill_n (columnWidth - String.length (repr v)) " " ++ repr v.

(** The row terminator: the closing separator and the line break. *)
Definition terminator : string := "|" ++ newline.

Fixpoint flatten (l : list string) : string :=
  match l with
  | [] => ""
  | x :: l' => x ++ flatten l'
  end.

(** [n] copies of [x], one after the other. *)
Fixpoint repeat_str (n : nat) (x : string) : string :=
  match n with
  | O => ""
  | S n' => x ++ repeat_str n' x
  end.

(** The cells of one argument of [tableRow]. *)
Definition arg_text (a : arg) : string :=
  match a with
  | Scalar v => cell_text v
  | Vector t => flatten (map cell_text t)
  end.

(** [emptyTableRow] as the specification words it: [n] calls of the
    no-argument [addColumnEntry], then one call of [endRow]. *)
Definition emptyTableRow_spec (n : nat) (s : ostream) : ostream :=
  endRow (Nat.iter n addColumnEntry_default s).

(** ** Vocabulary of the further properties *)

(** The cell statements of [tableRow], one argument after the other: the
    call [addColumnEntry(a)] for each argument [a] of the list, in order. *)
Definition emit_args (l : list arg) (s : ostream) : ostream :=
  fold_left (fun s' a => addColumnEntry_arg a s') l s.

(** A vector argument replaced by its elements, passed one by one. *)
Definition spread (a : arg) : list arg :=
  match a with
  | Scalar v => [Scalar v]
  | Vector t => map (fun ti => Scalar ti) t
  end.

(** The number of cells an argument stands for. *)
Definition columns (a : arg) : nat :=
  match a with
  | Scalar _ => 1
  | Vector t => List.length t
  end.

(** The number of characters of the cell of [v]: the separator and the
    field, which is as wide as the column or as the value if that is wider. *)
Definition cell_width {T : Type} `{Printable T} (v : T) : nat :=
  1 + Nat.max columnWidth (String.length (repr v)).

Definition arg_width (a : arg) : nat :=
  match a with
  | Scalar v => cell_width v
  | Vector t => list_sum (map cell_width t)
  end.


(** What one call writes on a stream in the standard format. *)
Definition call_text (c : call) : string :=
  match c with
  | AddColumnEntry a => arg_text a
  | AddColumnEntryDefault => "|" ++ placeholder
  | EndRow => terminator
  | EmptyTableRow n => repeat_str n ("|" ++ placeholder) ++ terminator
  | TableRow first args => flatten (map arg_text (first :: args)) ++ terminator
  end.


(** ** Strings: the few facts about [append] and [length] used below *)

Module Str.

Lemma append_nil_r (a : string) : a ++ "" = a.
Proof. induction a as [|c a IH]; simpl; [reflexivity | now rewrite IH]. Qed.

Lemma append_assoc (a b c : string) : (a ++ b) ++ c = a ++ (b ++ c).
Proof. induction a as [|x a IH]; simpl; [reflexivity | now rewrite IH]. Qed.

Lemma length_append (a b : string) :
  String.length (a ++ b) = String.length a + String.length b.
Proof. induction a as [|x a IH]; simpl; [reflexivity | now rewrite IH]. Qed.

End Str.


Lemma length_fill_n (k : nat) (c : ascii) : String.length (fill_n k c) = k.
Proof. induction k as [|k IH]; simpl; [reflexivity | now rewrite IH]. Qed.

Lemma substring_split (p : nat) (t : string) :
  substring 0 p t ++ substring p (String.length t - p) t = t.
Proof.
  revert p; induction t as [|c t IH]; intros [|p]; simpl; try reflexivity.
  - clear IH. f_equal. induction t as [|d t IHt]; simpl; [reflexivity|].
    now rewrite IHt.
  - now rewrite IH.
Qed.

(** ** What a formatted insertion writes *)

(** A formatted insertion writes [max width length] characters, whatever the
    fill character and the adjustment. *)
Lemma padded_length (s : ostream) (pre : nat) (txt : string) :
  String.length (padded s pre txt) = Nat.max (width s) (String.length txt).
Proof.
  unfold padded.
  assert (Hsplit := f_equal String.length (substring_split pre txt)).
  rewrite Str.length_append in Hsplit.
  destruct (adjustfield s);
    rewrite ?Str.length_append, ?length_fill_n; lia.
Qed.

(** With no room to pad, the text goes out unchanged. *)
Lemma padded_exact (s : ostream) (pre : nat) (txt : string) :
  width s <= String.length txt -> padded s pre txt = txt.
Proof.
  intros Hw. unfold padded.
  replace (width s - String.length txt) with 0 by lia. simpl.
  destruct (adjustfield s); try reflexivity.
  - apply Str.append_nil_r.
  - apply substring_split.
Qed.

Lemma out_put_lit_bar (s : ostream) :
  width s = 0 -> out (put_lit "|" s) = out s ++ "|".
Proof.
  intros Hw. unfold put_lit, put, insert. simpl out.
  rewrite padded_exact; [reflexivity | rewrite Hw; apply Nat.le_0_l].
Qed.

(** ** The formatting state is kept by every function of the header *)

Lemma std_format_cout : std_format cout.
Proof. repeat split. Qed.

Ltac std_split :=
  match goal with
  | H : std_format _ |- _ => destruct H as (? & ? & ?)
  end.

Section Generic.

Context {T : Type} `{Printable T}.

Lemma std_format_addColumnEntry (t : T) (s : ostream) :
  std_format s -> std_format (addColumnEntry t s).
Proof. intros Hs; std_split; repeat split; assumption. Qed.

Lemma std_format_addColumnEntry_vector (t : list T) (s : ostream) :
  std_format s -> std_format (addColumnEntry_vector t s).
Proof.
  revert s; induction t as [|ti t IH]; intros s Hs; simpl; [exact Hs|].
  apply IH. exact (std_format_addColumnEntry ti s Hs).
Qed.

(** The cell written by the scalar overload on a stream whose width is 0:
    the separator, then the padded value. *)
Lemma out_addColumnEntry_width0 (t : T) (s : ostream) :
  width s = 0 ->
  out (addColumnEntry t s) =
  out s ++ "|" ++ padded (setw columnWidth (put_lit "|" s)) (sign_len t) (repr t).
Proof.
  intros Hw. unfold addColumnEntry.
  change (out (put t (setw columnWidth (put_lit "|" s))))
    with (out (put_lit "|" s)
          ++ padded (setw columnWidth (put_lit "|" s)) (sign_len t) (repr t)).
  rewrite (out_put_lit_bar s Hw). apply Str.append_assoc.
Qed.

Lemma out_addColumnEntry (t : T) (s : ostream) :
  std_format s -> out (addColumnEntry t s) = out s ++ cell_text t.
Proof.
  intros Hs; std_split. rewrite out_addColumnEntry_width0 by assumption.
  unfold padded, cell_text. simpl adjustfield. simpl fill. simpl width.
  replace (adjustfield s) with AdjNone by congruence.
  replace (fill s) with " "%char by congruence. reflexivity.
Qed.

(** The vector overload does what one scalar call per element does. *)
Lemma addColumnEntry_vector_fold (t : list T) (s : ostream) :
  addColumnEntry_vector t s = fold_left (fun s' ti => addColumnEntry ti s') t s.
Proof.
  revert s; induction t as [|ti t IH]; intros s; simpl; [reflexivity|].
  rewrite IH. reflexivity.
Qed.

Lemma out_addColumnEntry_vector (t : list T) (s : ostream) :
  std_format s ->
  out (addColumnEntry_vector t s) = out s ++ flatten (map cell_text t).
Proof.
  revert s; induction t as [|ti t IH]; intros s Hs; simpl.
  - symmetry; apply Str.append_nil_r.
  - change (put ti (setw columnWidth (put_lit "|" s)))
      with (addColumnEntry ti s).
    rewrite IH by (apply std_format_addColumnEntry; exact Hs).
    rewrite out_addColumnEntry by exact Hs. apply Str.append_assoc.
Qed.

Lemma length_cell_text (t : T) :
  String.length (cell_text t) = 1 + Nat.max columnWidth (String.length (repr t)).
Proof.
  unfold cell_text. rewrite !Str.length_append, length_fill_n.
  change (String.length "|") with 1. lia.
Qed.

(** Whatever the fill character and the adjustment, a value that fits its
    column takes 1 + 14 characters on a stream whose width is 0. *)
Lemma length_addColumnEntry_any_flags (t : T) (s : ostream) :
  width s = 0 -> String.length (repr t) <= columnWidth ->
  String.length (out (addColumnEntry t s)) = String.length (out s) + 15.
Proof.
  intros Hw Hlen. rewrite out_addColumnEntry_width0 by exact Hw.
  rewrite Str.length_append. simpl String.length at 2.
  rewrite padded_length. simpl width. unfold columnWidth in *. lia.
Qed.

(** Whatever the fill character and the adjustment, a value wider than its
    column goes out whole and unpadded. *)
Lemma out_addColumnEntry_wide_any_flags (t : T) (s : ostream) :
  width s = 0 -> columnWidth < String.length (repr t) ->
  out (addColumnEntry t s) = out s ++ "|" ++ repr t.
Proof.
  intros Hw Hlen. rewrite out_addColumnEntry_width0 by exact Hw.
  rewrite padded_exact; [reflexivity | simpl width; lia].
Qed.

End Generic.

Lemma std_format_endRow (s : ostream) : std_format s -> std_format (endRow s).
Proof. intros Hs; std_split; repeat split; assumption. Qed.

Lemma out_endRow_width0 (s : ostream) :
  width s = 0 -> out (endRow s) = out s ++ terminator.
Proof.
  intros Hw.
  change (out (endRow s)) with (out (put_lit "|" s) ++ newline).
  rewrite (out_put_lit_bar s Hw). apply Str.append_assoc.
Qed.

Lemma std_format_loop (k : nat) (s : ostream) :
  std_format s -> std_format (emptyTableRow_loop k s).
Proof.
  revert s; induction k as [|k IH]; intros s Hs; simpl; [exact Hs|].
  apply IH. unfold addColumnEntry_default.
  now apply std_format_addColumnEntry.
Qed.

Lemma std_format_emptyTableRow (n : nat) (s : ostream) :
  std_format s -> std_format (emptyTableRow n s).
Proof.
  intros Hs. apply (std_format_endRow (emptyTableRow_loop n s)).
  now apply std_format_loop.
Qed.

Lemma std_format_addColumnEntry_arg (a : arg) (s : ostream) :
  std_format s -> std_format (addColumnEntry_arg a s).
Proof.
  destruct a as [T HT v | T HT t]; simpl.
  - apply std_format_addColumnEntry.
  - apply std_format_addColumnEntry_vector.
Qed.

Lemma std_format_tableRow (first : arg) (args : list arg) (s : ostream) :
  std_format s -> std_format (tableRow first args s).
Proof.
  revert first s; induction args as [|a args IH]; intros first s Hs; simpl.
  - now apply std_format_endRow, std_format_addColumnEntry_arg.
  - now apply IH, std_format_addColumnEntry_arg.
Qed.

Create HintDb stream.

#[local] Hint Resolve std_format_cout std_format_endRow
  std_format_emptyTableRow std_format_addColumnEntry_arg
  std_format_tableRow : stream.

Lemma std_format_exec (c : call) (s : ostream) :
  std_format s -> std_format (exec c s).
Proof.
  destruct c; simpl; auto with stream.
  unfold addColumnEntry_default. apply std_format_addColumnEntry.
Qed.

(** No sequence of calls of the header's functions leaves the stream with a
    pending width, another fill character or an adjustment. *)
Lemma std_format_run (h : list call) (s : ostream) :
  std_format s -> std_format (run h s).
Proof.
  unfold run. revert s; induction h as [|c h IH]; intros s Hs; simpl.
  - exact Hs.
  - now apply IH, std_format_exec.
Qed.

Lemma std_format_history (h : list call) : std_format (run h cout).
Proof. apply std_format_run, std_format_cout. Qed.

#[local] Hint Resolve std_format_history : stream.

(** ** What each function writes on a stream in the standard format *)

Lemma out_endRow (s : ostream) :
  std_format s -> out (endRow s) = out s ++ terminator.
Proof. intros Hs. apply out_endRow_width0, Hs. Qed.

Lemma out_addColumnEntry_default (s : ostream) :
  std_format s -> out (addColumnEntry_default s) = out s ++ "|" ++ placeholder.
Proof.
  intros Hs. unfold addColumnEntry_default.
  rewrite out_addColumnEntry by exact Hs. reflexivity.
Qed.

Lemma out_emptyTableRow_loop (k : nat) (s : ostream) :
  std_format s ->
  out (emptyTableRow_loop k s) = out s ++ repeat_str k ("|" ++ placeholder).
Proof.
  revert s; induction k as [|k IH]; intros s Hs.
  - simpl. symmetry; apply Str.append_nil_r.
  - change (emptyTableRow_loop (S k) s)
      with (emptyTableRow_loop k (addColumnEntry_default s)).
    rewrite IH by (apply std_format_addColumnEntry; exact Hs).
    rewrite out_addColumnEntry_default by exact Hs.
    rewrite Str.append_assoc. reflexivity.
Qed.

Lemma out_emptyTableRow (n : nat) (s : ostream) :
  std_format s ->
  out (emptyTableRow n s) =
  out s ++ repeat_str n ("|" ++ placeholder) ++ terminator.
Proof.
  intros Hs.
  change (emptyTableRow n s) with (endRow (emptyTableRow_loop n s)).
  rewrite out_endRow by (apply std_format_loop; exact Hs).
  rewrite out_emptyTableRow_loop by exact Hs. apply Str.append_assoc.
Qed.

Lemma out_addColumnEntry_arg (a : arg) (s : ostream) :
  std_format s -> out (addColumnEntry_arg a s) = out s ++ arg_text a.
Proof.
  destruct a as [T HT v | T HT t]; simpl.
  - apply out_addColumnEntry.
  - apply out_addColumnEntry_vector.
Qed.

(** A row: the cells of the arguments in argument order, one terminator. *)
Lemma out_tableRow (first : arg) (args : list arg) (s : ostream) :
  std_format s ->
  out (tableRow first args s) =
  out s ++ flatten (map arg_text (first :: args)) ++ terminator.
Proof.
  revert first s; induction args as [|a args IH]; intros first s Hs.
  - simpl tableRow. rewrite out_endRow by auto with stream.
    rewrite out_addColumnEntry_arg by exact Hs.
    simpl. rewrite Str.append_nil_r. apply Str.append_assoc.
  - simpl tableRow. rewrite IH by auto with stream.
    rewrite out_addColumnEntry_arg by exact Hs.
    rewrite Str.append_assoc.
    change (flatten (map arg_text (first :: a :: args)))
      with (arg_text first ++ flatten (map arg_text (a :: args))).
    rewrite (Str.append_assoc (arg_text first)). reflexivity.
Qed.

(** The loop of [emptyTableRow] is [n]-fold iteration of the no-argument
    cell emitter. *)
Lemma emptyTableRow_loop_iter (n : nat) (s : ostream) :
  emptyTableRow_loop n s = Nat.iter n addColumnEntry_default s.
Proof.
  revert s; induction n as [|n IH]; intros s; [reflexivity|].
  change (emptyTableRow_loop (S n) s)
    with (emptyTableRow_loop n (addColumnEntry_default s)).
  rewrite IH. symmetry. apply Nat.iter_succ_r.
Qed.

(** The width is state: a pending [setw] of the caller would pad the
    separator that [endRow] writes. *)
Example pending_width_pads_separator :
  out (endRow (setw 3 cout)) = "  |" ++ newline.
Proof. reflexivity. Qed.

Example mixed_row :
  out (tableRow (Scalar "S0")
         [Scalar (-100)%Z; Vector [1%Z; 0%Z]; Scalar "x"%char] cout)
  = "|            S0|          -100|             1|             0|             x|"
    ++ newline.
Proof. reflexivity. Qed.

(** ** The properties of the specification

    Each is stated for the stream as any sequence [h] of earlier calls of the
    header's functions has left it, starting from [cout]. *)

(** C1: [emptyTableRow(n)] writes exactly [n] placeholder cells and then
    exactly one row terminator; for [n = 0] it writes the terminator alone,
    and [emptyTableRow(2)] on the untouched stream writes the line
    [|--------------|--------------|]. *)
Theorem emptyTableRow_cells_then_terminator :
  (forall (h : list call) (n : nat),
      out (emptyTableRow n (run h cout)) =
      out (run h cout) ++ repeat_str n ("|" ++ placeholder) ++ "|" ++ newline)
  /\ (forall h : list call,
         out (emptyTableRow 0 (run h cout)) = out (run h cout) ++ "|" ++ newline)
  /\ out (emptyTableRow 2 cout) = "|--------------|--------------|" ++ newline.
Proof.
  split; [|split].
  - intros h n. apply out_emptyTableRow. auto with stream.
  - intros h. apply (out_emptyTableRow 0). auto with stream.
  - reflexivity.
Qed.

(** C2: [tableRow("a","b")] on the untouched stream writes the line
    [|             a|             b|]: per value a separator and the value
    right-aligned with spaces in 14 characters, then the closing separator and
    the line break. *)
Theorem tableRow_a_b_literal :
  out (tableRow (Scalar "a") [Scalar "b"] cout)
  = "|             a|             b|" ++ newline
  /\ out (tableRow (Scalar "a") [Scalar "b"] cout)
     = ("|" ++ fill_n 13 " " ++ "a") ++ ("|" ++ fill_n 13 " " ++ "b")
       ++ "|" ++ newline
  /\ String.length (fill_n 13 " " ++ "a") = columnWidth.
Proof. repeat split. Qed.

(** C3: for a scalar value whose printed form has at most 14 characters,
    [addColumnEntry(v)] appends exactly 15 characters: the separator and a
    field of exactly 14 characters that ends with the printed form. *)
Theorem addColumnEntry_appends_15 :
  forall (h : list call) (T : Type) (PT : Printable T) (v : T),
    String.length (repr v) <= 14 ->
    let s := run h cout in
    exists field : string,
      out (addColumnEntry v s) = out s ++ "|" ++ field
      /\ String.length field = 14
      /\ field = fill_n (14 - String.length (repr v)) " " ++ repr v
      /\ String.length (out (addColumnEntry v s)) = String.length (out s) + 15.
Proof.
  intros h T PT v Hlen s.
  assert (Hs : std_format s) by (subst s; auto with stream).
  exists (fill_n (14 - String.length (repr v)) " " ++ repr v).
  split; [|split; [|split]].
  - apply out_addColumnEntry, Hs.
  - rewrite Str.length_append, length_fill_n. lia.
  - reflexivity.
  - apply length_addColumnEntry_any_flags; [apply Hs | exact Hlen].
Qed.

Lemma addColumnEntry_appends_15_witness :
  let s := run [TableRow (Scalar "S0") [Scalar 100%Z]; EmptyTableRow 2] cout in
  exists field : string,
    out (addColumnEntry (-100)%Z s) = out s ++ "|" ++ field
    /\ String.length field = 14
    /\ field = fill_n (14 - String.length (repr (-100)%Z)) " " ++ repr (-100)%Z
    /\ String.length (out (addColumnEntry (-100)%Z s)) = String.length (out s) + 15.
Proof.
  apply (addColumnEntry_appends_15
           [TableRow (Scalar "S0") [Scalar 100%Z]; EmptyTableRow 2]
           Z Printable_int (-100)%Z).
  vm_compute. lia.
Defined.

(** C4: [tableRow(a, b, c)] with three scalar values writes exactly the
    three cells of [a], [b] and [c], in that order, and then exactly one row
    terminator; the variadic overload emits the cell of its first argument
    and recurses on the rest, the one-argument overload emits its cell and
    then the terminator. *)
Theorem tableRow_three_cells_one_terminator :
  (forall (h : list call) (A B C : Type)
          (PA : Printable A) (PB : Printable B) (PC : Printable C)
          (a : A) (b : B) (c : C),
      let s := run h cout in
      out (tableRow (Scalar a) [Scalar b; Scalar c] s)
      = out s ++ cell_text a ++ cell_text b ++ cell_text c ++ "|" ++ newline)
  /\ (forall (first next : arg) (rest : list arg) (s : ostream),
         tableRow first (next :: rest) s
         = tableRow next rest (addColumnEntry_arg first s))
  /\ (forall (v : arg) (s : ostream),
         tableRow v [] s = endRow (addColumnEntry_arg v s)).
Proof.
  split; [|split].
  - intros h A B C PA PB PC a b c s.
    assert (Hs : std_format s) by (subst s; auto with stream).
    rewrite out_tableRow by exact Hs. cbn [map flatten arg_text].
    rewrite Str.append_nil_r, !Str.append_assoc. reflexivity.
  - reflexivity.
  - reflexivity.
Qed.

(** C5: the vector overload of [addColumnEntry] writes one cell per element,
    in element order, each with its one separator and nothing else: it leaves
    the stream as one scalar call per element does, and what it appends is
    the concatenation of the elements' cells. *)
Theorem addColumnEntry_vector_one_cell_per_element :
  forall (h : list call) (T : Type) (PT : Printable T) (t : list T),
    let s := run h cout in
    addColumnEntry_vector t s
    = fold_left (fun s' ti => addColumnEntry ti s') t s
    /\ out (addColumnEntry_vector t s) = out s ++ flatten (map cell_text t)
    /\ List.length (map cell_text t) = List.length t.
Proof.
  intros h T PT t s. split; [|split].
  - apply addColumnEntry_vector_fold.
  - apply out_addColumnEntry_vector. subst s; auto with stream.
  - apply length_map.
Qed.

(** C6: a scalar value whose printed form is longer than 14 characters is
    written whole, without truncation and without padding: the cell is the
    separator and the printed form, more than 15 characters; the call
    returns a stream like any other. *)
Theorem addColumnEntry_no_truncation :
  forall (h : list call) (T : Type) (PT : Printable T) (v : T),
    14 < String.length (repr v) ->
    let s := run h cout in
    out (addColumnEntry v s) = out s ++ "|" ++ repr v
    /\ 15 < String.length ("|" ++ repr v)
    /\ std_format (addColumnEntry v s).
Proof.
  intros h T PT v Hlen s.
  assert (Hs : std_format s) by (subst s; auto with stream).
  split; [|split].
  - apply out_addColumnEntry_wide_any_flags; [apply Hs | exact Hlen].
  - simpl. lia.
  - apply std_format_addColumnEntry, Hs.
Qed.

Lemma addColumnEntry_no_truncation_witness :
  let s := run [AddColumnEntryDefault] cout in
  out (addColumnEntry "implied volatility" s) = out s ++ "|" ++ "implied volatility"
  /\ 15 < String.length ("|" ++ "implied volatility")
  /\ std_format (addColumnEntry "implied volatility" s).
Proof.
  apply (addColumnEntry_no_truncation [AddColumnEntryDefault]
           string Printable_string "implied volatility").
  vm_compute. lia.
Defined.

(** C7: every call of [addColumnEntry()] appends the separator and the 14
    dashes of the placeholder, whatever calls were made before. *)
Theorem addColumnEntry_default_placeholder :
  forall h : list call,
    out (addColumnEntry_default (run h cout))
    = out (run h cout) ++ "|" ++ "--------------".
Proof. intros h. apply out_addColumnEntry_default. auto with stream. Qed.

(** C8: every call of [endRow()] appends exactly one separator and one line
    break, whatever was written before. *)
Theorem endRow_appends_terminator :
  forall h : list call,
    out (endRow (run h cout)) = out (run h cout) ++ "|" ++ newline.
Proof. intros h. apply out_endRow. auto with stream. Qed.

(** C9: the vector overload called with an empty vector writes nothing and
    leaves the stream as it was; [tableRow] with an empty vector as its only
    argument writes the row terminator and nothing else. *)
Theorem empty_vector_emits_nothing :
  (forall (T : Type) (PT : Printable T) (s : ostream),
      addColumnEntry_vector (@nil T) s = s)
  /\ (forall (h : list call) (T : Type) (PT : Printable T),
         out (tableRow (Vector (@nil T)) [] (run h cout))
         = out (run h cout) ++ "|" ++ newline).
Proof.
  split.
  - reflexivity.
  - intros h T PT. simpl tableRow. apply out_endRow. auto with stream.
Qed.

(** C10: [emptyTableRow(n)] leaves the stream, in any state, exactly as [n]
    calls of [addColumnEntry()] followed by one call of [endRow()] do; in
    particular the two write the same characters. *)
Theorem emptyTableRow_refines_spec :
  forall (n : nat) (s : ostream),
    emptyTableRow n s = emptyTableRow_spec n s
    /\ out (emptyTableRow n s) = out (emptyTableRow_spec n s).
Proof.
  intros n s.
  assert (E : emptyTableRow n s = emptyTableRow_spec n s).
  { unfold emptyTableRow, emptyTableRow_spec, endRow.
    rewrite emptyTableRow_loop_iter. reflexivity. }
  split; [exact E | now rewrite E].
Qed.

(** ** Further properties: how the functions compose *)

Lemma emit_args_app (l1 l2 : list arg) (s : ostream) :
  emit_args (l1 ++ l2)%list s = emit_args l2 (emit_args l1 s).
Proof. apply fold_left_app. Qed.

Lemma tableRow_emit_args (args : list arg) (first : arg) (s : ostream) :
  tableRow first args s = endRow (emit_args (first :: args) s).
Proof.
  revert first s; induction args as [|a args IH]; intros first s.
  - reflexivity.
  - change (tableRow first (a :: args) s)
      with (tableRow a args (addColumnEntry_arg first s)).
    rewrite IH. reflexivity.
Qed.

Lemma emit_args_spread_one (a : arg) (s : ostream) :
  emit_args (spread a) s = addColumnEntry_arg a s.
Proof.
  destruct a as [T PT v | T PT t]; [reflexivity|].
  cbn [spread addColumnEntry_arg]. revert s.
  induction t as [|ti t IH]; intros s; [reflexivity|].
  cbn [map]. change (emit_args (Scalar ti :: map (fun x => Scalar x) t) s)
    with (emit_args (map (fun x => Scalar x) t) (addColumnEntry ti s)).
  rewrite IH. reflexivity.
Qed.

Lemma emit_args_spread (l : list arg) (s : ostream) :
  emit_args (flat_map spread l) s = emit_args l s.
Proof.
  revert s; induction l as [|a l IH]; intros s; [reflexivity|].
  cbn [flat_map]. rewrite emit_args_app, emit_args_spread_one, IH.
  reflexivity.
Qed.

Lemma emit_args_no_columns (l : list arg) (s : ostream) :
  Forall (fun a => columns a = 0) l -> emit_args l s = s.
Proof.
  intros Hl; revert s; induction Hl as [|a l Ha _ IH]; intros s.
  - reflexivity.
  - change (emit_args (a :: l) s) with (emit_args l (addColumnEntry_arg a s)).
    destruct a as [T PT v | T PT [|ti t]]; try discriminate Ha.
    apply IH.
Qed.

Lemma loop_as_vector (n : nat) (s : ostream) :
  emptyTableRow_loop n s = addColumnEntry_vector (repeat placeholder n) s.
Proof.
  revert s; induction n as [|n IH]; intros s; [reflexivity|].
  change (emptyTableRow_loop (S n) s)
    with (emptyTableRow_loop n (addColumnEntry_default s)).
  rewrite IH. reflexivity.
Qed.

Lemma loop_as_scalars (n : nat) (s : ostream) :
  emptyTableRow_loop n s = emit_args (repeat (Scalar placeholder) n) s.
Proof.
  revert s; induction n as [|n IH]; intros s; [reflexivity|].
  change (emptyTableRow_loop (S n) s)
    with (emptyTableRow_loop n (addColumnEntry_default s)).
  rewrite IH. reflexivity.
Qed.

(** X1: a row of any arguments, scalars and vectors mixed, is the cells of
    the arguments in argument order (a vector giving one cell per element)
    followed by one terminator. *)
Theorem tableRow_row_text :
  forall (h : list call) (first : arg) (args : list arg),
    let s := run h cout in
    out (tableRow first args s)
    = out s ++ flatten (map arg_text (first :: args)) ++ "|" ++ newline.
Proof.
  intros h first args s. apply out_tableRow. subst s; auto with stream.
Qed.

(** X2: in every stream state, [tableRow] leaves the stream as one call of
    [addColumnEntry] per argument, in order, followed by one call of
    [endRow] does. *)
Theorem tableRow_is_cells_then_endRow :
  forall (first : arg) (args : list arg) (s : ostream),
    tableRow first args s
    = endRow (fold_left (fun s' a => addColumnEntry_arg a s') (first :: args) s).
Proof. intros first args s. apply tableRow_emit_args. Qed.

(** X3: a vector argument prints as its elements passed as separate scalar
    arguments do: two argument lists with the same spread-out elements give
    the same row, in every stream state. *)
Theorem tableRow_vector_spreads :
  forall (first first' : arg) (args args' : list arg) (s : ostream),
    flat_map spread (first :: args) = flat_map spread (first' :: args') ->
    tableRow first args s = tableRow first' args' s.
Proof.
  intros first first' args args' s E.
  rewrite !tableRow_emit_args.
  rewrite <- (emit_args_spread (first :: args)).
  rewrite <- (emit_args_spread (first' :: args')).
  rewrite E. reflexivity.
Qed.

Lemma tableRow_vector_spreads_witness :
  tableRow (Scalar "K") [Vector [90%Z; 100%Z]; Vector (@nil Z); Scalar "c"%char]
    cout
  = tableRow (Vector ["K"]) [Scalar 90%Z; Scalar 100%Z; Vector ["c"%char]] cout.
Proof.
  apply (tableRow_vector_spreads
           (Scalar "K") (Vector ["K"])
           [Vector [90%Z; 100%Z]; Vector (@nil Z); Scalar "c"%char]
           [Scalar 90%Z; Scalar 100%Z; Vector ["c"%char]] cout).
  reflexivity.
Defined.

(** X4: a row all of whose arguments are empty vectors is the bare
    terminator: [tableRow] then does what [endRow] alone does, in every
    stream state. *)
Theorem tableRow_of_empty_vectors :
  forall (first : arg) (args : list arg) (s : ostream),
    Forall (fun a => columns a = 0) (first :: args) ->
    tableRow first args s = endRow s.
Proof.
  intros first args s Hl. rewrite tableRow_emit_args.
  rewrite emit_args_no_columns by exact Hl. reflexivity.
Qed.

Lemma tableRow_of_empty_vectors_witness :
  tableRow (Vector (@nil Z)) [Vector (@nil string)] (setw 5 cout)
  = endRow (setw 5 cout).
Proof.
  apply (tableRow_of_empty_vectors
           (Vector (@nil Z)) [Vector (@nil string)] (setw 5 cout)).
  repeat constructor.
Defined.

(** X5: one call of the vector overload on a vector [t1 ++ t2] does what a
    call on [t1] followed by a call on [t2] does, in every stream state. *)
Theorem addColumnEntry_vector_app :
  forall (T : Type) (PT : Printable T) (t1 t2 : list T) (s : ostream),
    addColumnEntry_vector (t1 ++ t2)%list s
    = addColumnEntry_vector t2 (addColumnEntry_vector t1 s).
Proof.
  intros T PT t1 t2 s. rewrite !addColumnEntry_vector_fold.
  apply fold_left_app.
Qed.

(** X6: [emptyTableRow(n)] is the row of [n] placeholder strings: it does
    what [tableRow] on a vector of [n] placeholders does, and for [n >= 1]
    what [tableRow] on [n] placeholder arguments does, in every stream
    state. *)
Theorem emptyTableRow_is_placeholder_row :
  forall (n : nat) (s : ostream),
    emptyTableRow n s = tableRow (Vector (repeat placeholder n)) [] s
    /\ emptyTableRow (S n) s
       = tableRow (Scalar placeholder) (repeat (Scalar placeholder) n) s.
Proof.
  intros n s. split.
  - unfold emptyTableRow. rewrite loop_as_vector. reflexivity.
  - rewrite tableRow_emit_args. unfold emptyTableRow.
    rewrite loop_as_scalars. reflexivity.
Qed.

(** ** Further properties: the length of what is written *)

Lemma list_sum_cons (a : nat) (l : list nat) :
  list_sum (a :: l) = a + list_sum l.
Proof. reflexivity. Qed.

Lemma list_sum_nil : list_sum [] = 0.
Proof. reflexivity. Qed.

Lemma length_out_put_lit_bar (s : ostream) :
  String.length (out (put_lit "|" s))
  = String.length (out s) + Nat.max (width s) 1.
Proof.
  change (out (put_lit "|" s)) with (out s ++ padded s 0 "|").
  rewrite Str.length_append, padded_length. reflexivity.
Qed.

Lemma length_out_addColumnEntry {T : Type} `{Printable T} (v : T)
  (s : ostream) :
  String.length (out (addColumnEntry v s))
  = String.length (out s) + Nat.max (width s) 1
    + Nat.max columnWidth (String.length (repr v)).
Proof.
  change (out (addColumnEntry v s))
    with (out (put_lit "|" s)
          ++ padded (setw columnWidth (put_lit "|" s)) (sign_len v) (repr v)).
  rewrite Str.length_append, padded_length, length_out_put_lit_bar.
  reflexivity.
Qed.

Lemma length_out_vector {T : Type} `{Printable T} (t : list T) (s : ostream) :
  width s = 0 ->
  String.length (out (addColumnEntry_vector t s))
  = String.length (out s) + list_sum (map cell_width t)
  /\ width (addColumnEntry_vector t s) = 0.
Proof.
  revert s; induction t as [|ti t IH]; intros s Hw.
  - cbn [addColumnEntry_vector map]. rewrite list_sum_nil.
    split; [lia | exact Hw].
  - change (addColumnEntry_vector (ti :: t) s)
      with (addColumnEntry_vector t (addColumnEntry ti s)).
    destruct (IH (addColumnEntry ti s) eq_refl) as [IHlen IHw].
    split; [|exact IHw].
    rewrite IHlen, length_out_addColumnEntry, Hw.
    cbn [map]. rewrite list_sum_cons. unfold cell_width. lia.
Qed.

Lemma length_out_arg (a : arg) (s : ostream) :
  width s = 0 ->
  String.length (out (addColumnEntry_arg a s))
  = String.length (out s) + arg_width a
  /\ width (addColumnEntry_arg a s) = 0.
Proof.
  intros Hw. destruct a as [T PT v | T PT t]; cbn [addColumnEntry_arg arg_width].
  - split; [|reflexivity].
    rewrite length_out_addColumnEntry, Hw. unfold cell_width. lia.
  - apply length_out_vector, Hw.
Qed.

Lemma length_out_emit_args (l : list arg) (s : ostream) :
  width s = 0 ->
  String.length (out (emit_args l s))
  = String.length (out s) + list_sum (map arg_width l)
  /\ width (emit_args l s) = 0.
Proof.
  revert s; induction l as [|a l IH]; intros s Hw.
  - cbn [emit_args fold_left map]. rewrite list_sum_nil.
    split; [lia | exact Hw].
  - change (emit_args (a :: l) s) with (emit_args l (addColumnEntry_arg a s)).
    destruct (length_out_arg a s Hw) as [Ha Hwa].
    destruct (IH _ Hwa) as [IHlen IHw]. split; [|exact IHw].
    rewrite IHlen, Ha. cbn [map]. rewrite list_sum_cons. lia.
Qed.

Lemma length_out_endRow (s : ostream) :
  String.length (out (endRow s))
  = String.length (out s) + Nat.max (width s) 1 + 1.
Proof.
  change (out (endRow s)) with (out (put_lit "|" s) ++ newline).
  rewrite Str.length_append, length_out_put_lit_bar. reflexivity.
Qed.

Lemma length_out_tableRow (first : arg) (args : list arg) (s : ostream) :
  width s = 0 ->
  String.length (out (tableRow first args s))
  = String.length (out s) + list_sum (map arg_width (first :: args)) + 2.
Proof.
  intros Hw. rewrite tableRow_emit_args, length_out_endRow.
  destruct (length_out_emit_args (first :: args) s Hw) as [Hlen Hw'].
  rewrite Hlen, Hw'. lia.
Qed.





(** X8: on a stream with no pending width, [emptyTableRow(n)] writes exactly
    [15 * n + 2] characters, the length of a row of [n] values that fit. *)
Theorem emptyTableRow_length :
  forall (n : nat) (s : ostream),
    width s = 0 ->
    String.length (out (emptyTableRow n s))
    = String.length (out s) + 15 * n + 2.
Proof.
  intros n s Hw.
  change (emptyTableRow n s) with (endRow (emptyTableRow_loop n s)).
  rewrite length_out_endRow, loop_as_vector.
  destruct (length_out_vector (repeat placeholder n) s Hw) as [Hlen Hw'].
  rewrite Hlen, Hw'.
  assert (Hsum : list_sum (map cell_width (repeat placeholder n)) = 15 * n).
  { clear. induction n as [|n IH]; [reflexivity|].
    cbn [repeat map]. rewrite list_sum_cons, IH.
    change (cell_width placeholder) with 15. lia. }
  rewrite Hsum. lia.
Qed.

Lemma emptyTableRow_length_witness :
  String.length (out (emptyTableRow 3 (mkStream "T" 0 "."%char AdjInternal)))
  = String.length (out (mkStream "T" 0 "."%char AdjInternal)) + 15 * 3 + 2.
Proof.
  apply (emptyTableRow_length 3 (mkStream "T" 0 "."%char AdjInternal)).
  reflexivity.
Defined.

(** X9: on a stream with no pending width, whatever its fill character and
    adjustment, a row is as long as its cells and the terminator: each cell
    counts 1 for the separator and 14 or, if the value is longer, the
    length of the value.  A value that does not fit lengthens its row by its
    excess and is never cut. *)
Theorem tableRow_length :
  forall (first : arg) (args : list arg) (s : ostream),
    width s = 0 ->
    String.length (out (tableRow first args s))
    = String.length (out s) + list_sum (map arg_width (first :: args)) + 2.
Proof. intros first args s Hw. apply length_out_tableRow, Hw. Qed.

Lemma tableRow_length_witness :
  String.length
    (out (tableRow (Scalar "implied volatility") [Scalar 7%Z] cout))
  = String.length (out cout)
    + list_sum (map arg_width [Scalar "implied volatility"; Scalar 7%Z]) + 2.
Proof.
  apply (tableRow_length (Scalar "implied volatility") [Scalar 7%Z] cout).
  reflexivity.
Defined.


(** ** Further properties: what the functions leave alone *)














Lemma out_exec (c : call) (s : ostream) :
  std_format s -> out (exec c s) = out s ++ call_text c.
Proof.
  intros Hs. destruct c as [a | | | n | first args]; cbn [exec call_text].
  - apply out_addColumnEntry_arg, Hs.
  - apply out_addColumnEntry_default, Hs.
  - apply out_endRow, Hs.
  - apply out_emptyTableRow, Hs.
  - apply out_tableRow, Hs.
Qed.

Lemma out_run (h : list call) (s : ostream) :
  std_format s -> out (run h s) = out s ++ flatten (map call_text h).
Proof.
  revert s; induction h as [|c h IH]; intros s Hs.
  - symmetry. apply Str.append_nil_r.
  - change (run (c :: h) s) with (run h (exec c s)).
    rewrite IH by (apply std_format_exec; exact Hs).
    rewrite out_exec by exact Hs. cbn [map flatten].
    apply Str.append_assoc.
Qed.



(** X13: what a sequence of calls writes does not depend on the calls made
    before it: the output of [h1] followed by [h2] is the output of [h1]
    followed by the output that [h2] gives on the untouched stream. *)
Theorem history_outputs_concatenate :
  forall h1 h2 : list call,
    out (run (h1 ++ h2)%list cout) = out (run h1 cout) ++ out (run h2 cout).
Proof.
  intros h1 h2. unfold run at 1. rewrite fold_left_app.
  change (out (run h2 (run h1 cout)) = out (run h1 cout) ++ out (run h2 cout)).
  rewrite (out_run h2 (run h1 cout)) by apply std_format_history.
  rewrite (out_run h2 cout) by apply std_format_cout. reflexivity.
Qed.
